(** * fix-symbols.py: patching an overlong symbol name in a shared object

  A shallow embedding of [security-auditor/fix-symbols.py].  The script
  reads a file, replaces one hardcoded byte pattern by a shorter one that
  is padded with null bytes, and writes the result under a derived name.

  Layout of the development:
  - [Replace]: the semantics of Python's [bytes.replace] / [str.replace]
    (no count argument), over an arbitrary alphabet with decidable equality;
  - [Patterns]: the constants of [shorten_symbol_names] and its two pure
    computations, [modified_data] and [output_path];
  - [Script]: the file system, the console and the control flow of
    [shorten_symbol_names] and of the [__main__] block;
  - the theorems. *)

From stdpp Require Import gmap strings list.
From Stdlib Require Import Strings.Byte.

(** ** Python's [replace] on sequences *)

Module Replace.
Section defs.
Context {A : Type} `{EqDecision A}.
Implicit Types (old new s x y : list A) (i k n : nat).

(** [s.startswith(old)] *)
Definition startswith s old : bool :=
  bool_decide (take (length old) s = old).

(** The left-to-right scan of [s.replace(old, new)] for a non-empty [old].
    [skip] counts the elements of a match just replaced that the scan
    still has to step over, so that matches never overlap and the
    replacement itself is never searched again. *)
Fixpoint scan old new (skip : nat) s : list A :=
  match s with
  | [] => []
  | c :: s' =>
      match skip with
      | S k => scan old new k s'
      | O =>
          if startswith s old
          then new ++ scan old new (length old - 1) s'
          else c :: scan old new 0 s'
      end
  end.

(** [s.replace(old, new)].  For the empty [old] Python inserts [new]
    before every element and at the end. *)
Definition replace old new s : list A :=
  match old with
  | [] => new ++ flat_map (λ c, c :: new) s
  | _ :: _ => scan old new 0 s
  end.

(** [old] occurs in [s] at offset [i]: [s[i : i + len(old)] == old]. *)
Definition occurs_at old s i : Prop :=
  take (length old) (drop i s) = old.

#[export] Instance occurs_at_dec old s i : Decision (occurs_at old s i).
Proof. unfold occurs_at. apply _. Defined.

(** All offsets at which [old] occurs in [s], in increasing order. *)
Definition occurrences old s : list nat :=
  filter (occurs_at old s) (seq 0 (S (length s))).

(** [old] has a border of length [k]: a proper non-empty prefix that is
    also a suffix.  Two occurrences of [old] can overlap only if it has
    one. *)
Definition border old k : Prop :=
  0 < k < length old ∧ take k old = drop (length old - k) old.

Definition borderless old : bool :=
  forallb (λ k, bool_decide (take k old ≠ drop (length old - k) old))
          (seq 1 (length old - 1)).

(** No non-empty suffix of [x] is a prefix of [y]: an occurrence of [y]
    cannot start inside an occurrence of [x] of the same length, nor
    coincide with it. *)
Definition no_overlap x y : bool :=
  forallb (λ k, bool_decide (drop (length x - k) x ≠ take k y))
          (seq 1 (length x)).
End defs.
End Replace.

(** ** The constants and pure computations of [shorten_symbol_names] *)

Module Patterns.
Import Replace.

#[export] Instance byte_eq_dec : EqDecision byte := Byte.byte_eq_dec.

Definition old_pattern : list byte :=
  String.list_byte_of_string
    ".bss._ZN98_$LT$switchboard_solana..program_id..SWITCHBOARD_PROGRAM_ID$u20$as$u20$core..ops..deref..Deref$GT$5deref11__stability4LAZY17ha3b89edb3e526ca9E".

(** [new_pattern] as first bound, before the padding. *)
Definition new_pattern : list byte :=
  String.list_byte_of_string ".bss._ZN_short".

(** [new_pattern] as rebound by
    [new_pattern + b'\x00' * (len(old_pattern) - len(new_pattern))];
    a negative repeat count gives the empty sequence, as the truncated
    subtraction does. *)
Definition padded_pattern : list byte :=
  new_pattern ++ replicate (length old_pattern - length new_pattern) x00.

(** [data.replace(old_pattern, new_pattern)] *)
Definition modified_data (data : list byte) : list byte :=
  replace old_pattern padded_pattern data.

(** [str.replace] on a path.  A path is a string of 8-bit characters;
    [replace] itself is defined for any alphabet. *)
Definition str_replace (old new s : string) : string :=
  String.string_of_list_ascii
    (replace (String.list_ascii_of_string old)
             (String.list_ascii_of_string new)
             (String.list_ascii_of_string s)).

(** [file_path.replace('.so', '_fixed.so')] *)
Definition output_path (file_path : string) : string :=
  str_replace ".so" "_fixed.so" file_path.
End Patterns.

(** ** The script: file system, console and control flow *)

Module Script.
Import Patterns.

(** What a path names.  Paths are opaque keys: the directories leading to
    a path and the permissions of files are outside the model, so a path
    that does not name a directory can always be opened for writing.
    Two different path strings name two different entries: links and
    other spellings of one path ([./lib.so]) are outside the model too,
    so what is proved about the file system speaks of paths as written. *)
Inductive entry : Type :=
  | File (data : list byte)
  | Dir.

(** What the process does to its environment, in order. *)
Inductive event : Type :=
  | Exists (path : string)
  | OpenRead (path : string)
  | OpenWrite (path : string)
  | Printed (line : string).

Record world : Type := World {
  fs : gmap string entry;
  log : list event
}.

Inductive exn : Type :=
  | SystemExit (code : nat)
  | IndexError
  | FileNotFoundError (path : string)
  | IsADirectoryError (path : string).

Inductive result (R : Type) : Type :=
  | Ok (r : R)
  | Raise (e : exn).
Arguments Ok {R} r.
Arguments Raise {R} e.

(** Computations that change the world and return or raise. *)
Definition py (R : Type) : Type := world → result R * world.

Definition ret {R} (r : R) : py R := λ w, (Ok r, w).

Definition bind {R S} (m : py R) (k : R → py S) : py S :=
  λ w, match m w with
       | (Ok r, w') => k r w'
       | (Raise e, w') => (Raise e, w')
       end.

Notation "x <- m ;; k" := (bind m (λ x, k))
  (at level 100, m at next level, right associativity).
Notation "m ;; k" := (bind m (λ _, k))
  (at level 100, right associativity).

Definition raise {R} (e : exn) : py R := λ w, (Raise e, w).

Definition emit (e : event) : py unit :=
  λ w, (Ok (), World (fs w) (log w ++ [e])).

(** [print(line)]; a console that refuses the line is not modelled. *)
Definition print (line : string) : py unit := emit (Printed line).

(** [sys.exit(code)] *)
Definition sys_exit {R} (code : nat) : py R := raise (SystemExit code).

(** [os.path.exists(path)] *)
Definition path_exists (path : string) : py bool :=
  emit (Exists path);;
  λ w, (Ok (bool_decide (is_Some (fs w !! path))), w).

(** [with open(path, 'rb') as f: f.read()] *)
Definition read_file (path : string) : py (list byte) :=
  emit (OpenRead path);;
  λ w, match fs w !! path with
       | Some (File data) => (Ok data, w)
       | Some Dir => (Raise (IsADirectoryError path), w)
       | None => (Raise (FileNotFoundError path), w)
       end.

(** [with open(path, 'wb') as f: f.write(data)]: the file is created or
    truncated, then filled.  The only failure modelled is a directory at
    [path]; a write that fails half way (a full disk) is not. *)
Definition write_file (path : string) (data : list byte) : py unit :=
  emit (OpenWrite path);;
  λ w, match fs w !! path with
       | Some Dir => (Raise (IsADirectoryError path), w)
       | _ => (Ok (), World (<[path := File data]> (fs w)) (log w))
       end.

Definition shorten_symbol_names (file_path : string) : py string :=
  data <- read_file file_path;;
  let modified_data := modified_data data in
  let output_path := output_path file_path in
  write_file output_path modified_data;;
  print ("Fixed file written to: " +:+ output_path);;
  ret output_path.

Definition usage : string := "Usage: python fix-symbols.py <path_to_so_file>".

(** The [__main__] block, with [argv] for [sys.argv]; [argv !! 1] is
    [sys.argv[1]], which is there once the length has been checked. *)
Definition main (argv : list string) : py unit :=
  if bool_decide (length argv ≠ 2) then
    print usage;;
    sys_exit 1
  else
    match argv !! 1 with
    | None => raise IndexError
    | Some file_path =>
        found <- path_exists file_path;;
        if negb found then
          print ("Error: File " +:+ file_path +:+ " not found");;
          sys_exit 1
        else
          fixed_path <- shorten_symbol_names file_path;;
          print ("Successfully shortened symbol names in " +:+ fixed_path)
    end.

(** The exit status of the interpreter: 0 when the script runs to its
    end, the argument of [sys.exit], and 1 for any other exception that
    nothing catches. *)
Definition run (argv : list string) (w : world) : nat * world :=
  match main argv w with
  | (Ok _, w') => (0, w')
  | (Raise (SystemExit code), w') => (code, w')
  | (Raise _, w') => (1, w')
  end.
End Script.

Import Replace Patterns Script.

(** ** Notions used to state the properties of paths *)

(** [sub] occurs in the string [s] at offset [i]. *)
Definition str_occurs_at (sub s : string) (i : nat) : Prop :=
  occurs_at (String.list_ascii_of_string sub) (String.list_ascii_of_string s) i.

(** Replacing only the first occurrence, [s.replace(old, new, 1)]: what
    the description of the tool says of the output path.  The script does
    not call it; it is here to be compared with [output_path]. *)
Fixpoint replace_first {A} `{EqDecision A} (old new s : list A) : list A :=
  if startswith s old then new ++ drop (length old) s
  else match s with
       | [] => []
       | c :: s' => c :: replace_first old new s'
       end.

Definition str_replace_first (old new s : string) : string :=
  String.string_of_list_ascii
    (replace_first (String.list_ascii_of_string old)
                   (String.list_ascii_of_string new)
                   (String.list_ascii_of_string s)).


(** ** Sample inputs *)

(** A buffer with a single occurrence of the old pattern, at offset 1. *)
Definition one_match : list byte := [x01] ++ old_pattern ++ [x02].

(** A buffer with three occurrences, two of them adjacent. *)
Definition three_matches : list byte :=
  [x01] ++ old_pattern ++ [x02] ++ old_pattern ++ old_pattern.

(** A buffer in which the old pattern does not occur. *)
Definition no_match : list byte := String.list_byte_of_string ".bss._ZN98_".

Definition world_with (path : string) (data : list byte) : world :=
  World {[ path := File data ]} [].

(** A world in which [build] is a directory and [lib.so] a file beside it. *)
Definition world_with_dir (data : list byte) : world :=
  World (<[ "build" := Dir ]> {[ "lib.so" := File data ]}) [].

(** A world in which the output path of [lib.so] is taken by a directory. *)
Definition world_blocked (data : list byte) : world :=
  World (<[ "lib_fixed.so" := Dir ]> {[ "lib.so" := File data ]}) [].

(** ** Unfolding equations and the induction principle of [replace] *)

Section replace_equations.
Context {A : Type} `{EqDecision A}.
Implicit Types (old new s r x y : list A) (c : A) (i j k p q : nat).

Lemma scan_skip old new k s :
  scan old new k s = scan old new 0 (drop k s).
Proof.
  revert k. induction s as [|c s IH]; intros [|k]; try reflexivity.
  simpl scan at 1. rewrite IH. reflexivity.
Qed.

Lemma replace_nil old new : old ≠ [] → replace old new [] = [].
Proof. destruct old; [congruence | reflexivity]. Qed.

Lemma replace_match old new s :
  old ≠ [] → occurs_at old s 0 →
  replace old new s = new ++ replace old new (drop (length old) s).
Proof.
  unfold occurs_at. rewrite drop_0. intros Hne Hocc.
  destruct old as [|a o]; [congruence|].
  destruct s as [|c s]; [discriminate|].
  unfold replace. cbn [scan]. unfold startswith.
  rewrite bool_decide_eq_true_2 by exact Hocc.
  rewrite scan_skip. cbn [length drop Nat.sub]. rewrite Nat.sub_0_r. reflexivity.
Qed.

Lemma replace_step old new c s :
  old ≠ [] → ¬ occurs_at old (c :: s) 0 →
  replace old new (c :: s) = c :: replace old new s.
Proof.
  unfold occurs_at. rewrite drop_0. intros Hne Hocc.
  destruct old as [|a o]; [congruence|].
  unfold replace. cbn [scan]. unfold startswith.
  rewrite bool_decide_eq_false_2 by exact Hocc. reflexivity.
Qed.

(** Induction along the scan: the empty buffer, a match at the head, and
    a head element that is copied. *)
Lemma replace_ind old new (P : list A → list A → Prop) :
  old ≠ [] →
  P [] [] →
  (∀ s r, occurs_at old s 0 → P (drop (length old) s) r → P s (new ++ r)) →
  (∀ c s r, ¬ occurs_at old (c :: s) 0 → P s r → P (c :: s) (c :: r)) →
  ∀ s, P s (replace old new s).
Proof.
  intros Hne Hnil Hmatch Hstep s.
  remember (length s) as m eqn:Hm. revert s Hm.
  induction m as [m IH] using lt_wf_ind. intros s ->.
  destruct (decide (occurs_at old s 0)) as [Hocc|Hocc].
  - rewrite replace_match by assumption. apply Hmatch; [assumption|].
    assert (length s ≠ 0 ∧ length old ≠ 0) as [??].
    { unfold occurs_at in Hocc. rewrite drop_0 in Hocc.
      destruct old, s; simpl in *; try congruence. split; lia. }
    apply (IH (length (drop (length old) s))); [|reflexivity].
    rewrite length_drop. lia.
  - destruct s as [|c s].
    + rewrite replace_nil by assumption. exact Hnil.
    + rewrite replace_step by assumption. apply Hstep; [assumption|].
      apply (IH (length s)); [simpl; lia | reflexivity].
Qed.
End replace_equations.

(** ** Occurrences and overlaps *)

Section occurrences.
Context {A : Type} `{EqDecision A}.
Implicit Types (old new s r x y : list A) (c : A) (i j k p q : nat).

Lemma occurs_at_cons old c s i :
  occurs_at old (c :: s) (S i) ↔ occurs_at old s i.
Proof. reflexivity. Qed.

Lemma occurs_at_drop old s n i :
  occurs_at old (drop n s) i ↔ occurs_at old s (n + i).
Proof. unfold occurs_at. rewrite drop_drop. reflexivity. Qed.

Lemma occurs_at_bound old s i :
  old ≠ [] → occurs_at old s i → i + length old ≤ length s.
Proof.
  unfold occurs_at. intros Hne Hocc.
  apply (f_equal length) in Hocc. rewrite length_take, length_drop in Hocc.
  assert (length old ≠ 0) by (destruct old; [congruence | discriminate]).
  lia.
Qed.

Lemma occurs_at_lookup old s i k :
  occurs_at old s i → k < length old → s !! (i + k) = old !! k.
Proof.
  unfold occurs_at. intros Hocc Hk.
  transitivity (take (length old) (drop i s) !! k); [|by rewrite Hocc].
  rewrite lookup_take_lt, lookup_drop by assumption.
  reflexivity.
Qed.

Lemma occurs_at_app old a b : occurs_at old (a ++ old ++ b) (length a).
Proof.
  unfold occurs_at. rewrite drop_app_length. apply take_app_length.
Qed.

Lemma occurs_at_app_l old a b i :
  i + length old ≤ length a → occurs_at old (a ++ b) i ↔ occurs_at old a i.
Proof.
  intros Hi. unfold occurs_at.
  rewrite drop_app_le by lia. rewrite take_app_le; [reflexivity|].
  rewrite length_drop. lia.
Qed.

(** Two overlapping occurrences share the bytes of the overlap. *)
Lemma overlap_shared x y s p q :
  occurs_at x s p → occurs_at y s q →
  p ≤ q → q < p + length x → p + length x ≤ q + length y →
  drop (length x - (p + length x - q)) x = take (p + length x - q) y.
Proof.
  intros Hx Hy Hpq Hq Hy'.
  apply list_eq. intros k.
  rewrite lookup_drop.
  destruct (decide (k < p + length x - q)) as [Hk|Hk].
  - rewrite lookup_take_lt by assumption.
    rewrite <- (occurs_at_lookup x s p) by (assumption || lia).
    rewrite <- (occurs_at_lookup y s q) by (assumption || lia).
    f_equal. lia.
  - rewrite lookup_take_ge by lia.
    apply lookup_ge_None. lia.
Qed.

Lemma no_overlap_spec x y s p q :
  no_overlap x y = true → length x = length y →
  occurs_at x s p → occurs_at y s q → p ≤ q → p + length x ≤ q.
Proof.
  intros Hno Hlen Hx Hy Hpq.
  destruct (decide (p + length x ≤ q)) as [|Hlt]; [assumption|exfalso].
  unfold no_overlap in Hno. rewrite forallb_forall in Hno.
  specialize (Hno (p + length x - q)).
  rewrite bool_decide_eq_true in Hno. apply Hno.
  - apply in_seq. lia.
  - apply (overlap_shared x y s p q); (assumption || lia).
Qed.

Lemma borderless_spec old s i j :
  borderless old = true →
  occurs_at old s i → occurs_at old s j → i < j → i + length old ≤ j.
Proof.
  intros Hbl Hi Hj Hij.
  destruct (decide (i + length old ≤ j)) as [|Hlt]; [assumption|exfalso].
  unfold borderless in Hbl. rewrite forallb_forall in Hbl.
  specialize (Hbl (i + length old - j)).
  rewrite bool_decide_eq_true in Hbl. apply Hbl.
  - apply in_seq. lia.
  - symmetry. apply (overlap_shared old old s i j); (assumption || lia).
Qed.

Lemma borderless_border old k : borderless old = true → ¬ border old k.
Proof.
  unfold borderless, border. rewrite forallb_forall.
  intros Hbl [Hk Heq]. specialize (Hbl k).
  rewrite bool_decide_eq_true in Hbl. apply Hbl; [|assumption].
  apply in_seq. lia.
Qed.

Lemma elem_of_occurrences old s i :
  old ≠ [] → i ∈ occurrences old s ↔ occurs_at old s i.
Proof.
  intros Hne. unfold occurrences.
  rewrite list_elem_of_filter, elem_of_seq. split; [tauto|].
  intros Hocc. split; [assumption|].
  pose proof (occurs_at_bound old s i Hne Hocc). lia.
Qed.
End occurrences.

(** ** What [replace] does to a buffer *)

Section replace_properties.
Context {A : Type} `{EqDecision A}.
Variables old new : list A.
Hypothesis old_nonempty : old ≠ [].
Implicit Types (s r a b : list A) (c : A) (i j k p q : nat).

(** A buffer without any occurrence is returned as it is. *)
Lemma replace_absent s :
  (∀ i, ¬ occurs_at old s i) → replace old new s = s.
Proof.
  pattern s, (replace old new s). apply replace_ind; clear s.
  - assumption.
  - reflexivity.
  - intros s r Hocc _ Hno. destruct (Hno 0 Hocc).
  - intros c s r _ IH Hno. f_equal. apply IH.
    intros i Hi. apply (Hno (S i)). by apply occurs_at_cons.
Qed.

(** Bytes that no occurrence covers are copied. *)
Lemma replace_frame s k :
  length new = length old →
  (∀ i, occurs_at old s i → ¬ (i ≤ k < i + length old)) →
  replace old new s !! k = s !! k.
Proof.
  intros Hlen. revert k.
  pattern s, (replace old new s). apply replace_ind; clear s.
  - assumption.
  - reflexivity.
  - intros s r Hocc IH k Hk.
    pose proof (Hk 0 Hocc) as Hk0.
    pose proof (occurs_at_bound old s 0 old_nonempty Hocc) as Hb.
    rewrite lookup_app_r by lia. rewrite Hlen.
    rewrite IH.
    + rewrite lookup_drop. f_equal. lia.
    + intros i Hi. apply occurs_at_drop in Hi. specialize (Hk _ Hi). lia.
  - intros c s r _ IH [|k] Hk; [reflexivity|].
    simpl. apply IH. intros i Hi.
    apply (occurs_at_cons old c) in Hi. specialize (Hk _ Hi). lia.
Qed.

(** The replacement of a whole file keeps its length when the two
    patterns have the same length. *)
Lemma replace_length s :
  length new = length old → length (replace old new s) = length s.
Proof.
  intros Hlen.
  pattern s, (replace old new s). apply replace_ind; clear s.
  - assumption.
  - reflexivity.
  - intros s r Hocc IH.
    pose proof (occurs_at_bound old s 0 old_nonempty Hocc) as Hb.
    rewrite length_app, IH, length_drop. lia.
  - intros c s r _ IH. simpl. by rewrite IH.
Qed.

Hypothesis old_borderless : borderless old = true.

(** With a borderless pattern every occurrence is met by the scan. *)
Lemma replace_occurrence s i :
  length new = length old →
  occurs_at old s i → occurs_at new (replace old new s) i.
Proof.
  intros Hlen. revert i.
  pattern s, (replace old new s). apply replace_ind; clear s.
  - assumption.
  - intros i Hi. apply occurs_at_bound in Hi; [|assumption].
    assert (length old ≠ 0) by (destruct old; [congruence | discriminate]).
    simpl in Hi. lia.
  - intros s r Hocc IH i Hi.
    destruct (decide (i = 0)) as [->|Hi0].
    { unfold occurs_at. rewrite drop_0. apply take_app_length. }
    pose proof (borderless_spec old s 0 i old_borderless Hocc Hi) as Hb.
    unfold occurs_at. rewrite drop_app_ge by lia.
    apply IH. apply occurs_at_drop.
    replace (length old + (i - length new)) with i by lia. assumption.
  - intros c s r Hno IH [|i] Hi; [contradiction|].
    apply occurs_at_cons, IH. by apply occurs_at_cons in Hi.
Qed.

(** [replace] distributes over a splitting of the buffer at an occurrence. *)
Lemma replace_app a b :
  replace old new (a ++ old ++ b)
  = replace old new a ++ new ++ replace old new b.
Proof.
  remember (length a) as m eqn:Hm. revert a Hm.
  induction m as [m IH] using lt_wf_ind. intros a ->.
  pose proof (occurs_at_app old a b) as Hmid.
  destruct (decide (occurs_at old (a ++ old ++ b) 0)) as [Hocc|Hocc].
  - destruct (decide (length a = 0)) as [Ha|Ha].
    { destruct a; [|discriminate]. simpl.
      rewrite (replace_match old new (old ++ b)) by assumption.
      rewrite drop_app_length.
      by rewrite (replace_nil old new). }
    pose proof (borderless_spec old _ 0 (length a) old_borderless Hocc Hmid)
      as Hb.
    assert (occurs_at old a 0) as Ha0.
    { apply (occurs_at_app_l old a (old ++ b)); [lia | assumption]. }
    rewrite (replace_match old new (a ++ old ++ b)) by assumption.
    rewrite (replace_match old new a) by assumption.
    rewrite drop_app_le by lia.
    assert (length old ≠ 0) by (destruct old; [congruence | discriminate]).
    rewrite (IH (length (drop (length old) a))); [| |reflexivity].
    + by rewrite <- app_assoc.
    + rewrite length_drop. lia.
  - destruct a as [|c a].
    { destruct Hocc. apply (occurs_at_app old [] b). }
    assert (¬ occurs_at old (c :: a) 0) as Hno.
    { intros Ha0. apply Hocc.
      apply (occurs_at_app_l old (c :: a) (old ++ b)); [|assumption].
      apply (occurs_at_bound old (c :: a) 0 old_nonempty Ha0). }
    rewrite <- app_comm_cons.
    rewrite (replace_step old new c (a ++ old ++ b)) by assumption.
    rewrite (replace_step old new c a) by assumption.
    rewrite (IH (length a)); [reflexivity | simpl; lia | reflexivity].
Qed.

(** After the replacement no occurrence of [old] is left, provided the
    replacement cannot form one together with its surroundings. *)
Lemma replace_gone s q :
  length new = length old →
  no_overlap new old = true → no_overlap old new = true →
  ¬ occurs_at old (replace old new s) q.
Proof.
  intros Hlen Hno1 Hno2 Hq.
  assert (∀ p, occurs_at old s p → ¬ (p < q + length old ∧ q < p + length old))
    as Hfar.
  { intros p Hp [H1 H2].
    pose proof (replace_occurrence s p Hlen Hp) as Hp'.
    destruct (decide (p ≤ q)) as [Hpq|Hpq].
    - pose proof (no_overlap_spec new old _ p q Hno1 Hlen Hp' Hq Hpq). lia.
    - pose proof (no_overlap_spec old new _ q p Hno2 (eq_sym Hlen) Hq Hp').
      lia. }
  assert (occurs_at old s q) as Hs.
  { unfold occurs_at. rewrite <- Hq at 2. apply list_eq. intros k.
    destruct (decide (k < length old)) as [Hk|Hk].
    - rewrite !lookup_take_lt, !lookup_drop by assumption.
      symmetry. apply replace_frame; [assumption|].
      intros i Hi. specialize (Hfar i Hi). lia.
    - by rewrite !lookup_take_ge by lia. }
  assert (length old ≠ 0) by (destruct old; [congruence | discriminate]).
  apply (Hfar q Hs). lia.
Qed.
End replace_properties.

(** ** Facts about the hardcoded patterns, by evaluation *)

Lemma old_pattern_nonempty : old_pattern ≠ [].
Proof. discriminate. Qed.

Lemma padded_pattern_length : length padded_pattern = length old_pattern.
Proof. reflexivity. Qed.

Lemma old_pattern_borderless : borderless old_pattern = true.
Proof. vm_compute. reflexivity. Qed.

Lemma padded_old_no_overlap : no_overlap padded_pattern old_pattern = true.
Proof. vm_compute. reflexivity. Qed.

Lemma old_padded_no_overlap : no_overlap old_pattern padded_pattern = true.
Proof. vm_compute. reflexivity. Qed.

Lemma absent_by_occurrences {A} `{EqDecision A} (old s : list A) :
  old ≠ [] → occurrences old s = [] → ∀ i, ¬ occurs_at old s i.
Proof.
  intros Hne Hnil i Hi. apply elem_of_occurrences in Hi; [|assumption].
  rewrite Hnil in Hi. by apply elem_of_nil in Hi.
Qed.

(** ** Paths as strings *)

Lemma list_ascii_of_string_app (a b : string) :
  String.list_ascii_of_string (a +:+ b)
  = String.list_ascii_of_string a ++ String.list_ascii_of_string b.
Proof. induction a as [|c a IH]; [reflexivity|]. simpl. by rewrite IH. Qed.

Lemma string_of_list_ascii_app (a b : list Ascii.ascii) :
  String.string_of_list_ascii (a ++ b)
  = String.string_of_list_ascii a +:+ String.string_of_list_ascii b.
Proof. induction a as [|c a IH]; [reflexivity|]. simpl. by rewrite IH. Qed.

(** ** The effect of a successful run *)

Lemma shorten_symbol_names_ok (w : world) (p : string) (B : list byte) :
  fs w !! p = Some (File B) →
  fs w !! output_path p ≠ Some Dir →
  shorten_symbol_names p w
  = (Ok (output_path p),
     World (<[output_path p := File (modified_data B)]> (fs w))
           (log w ++ [OpenRead p; OpenWrite (output_path p);
                      Printed ("Fixed file written to: " +:+ output_path p)])).
Proof.
  intros Hin Hout.
  unfold shorten_symbol_names, read_file, write_file, print, emit, bind, ret.
  cbn [fs log]. rewrite Hin. cbn [fs log].
  rewrite <- !app_assoc. cbn [app].
  destruct (fs w !! output_path p) as [[d|]|] eqn:Hlk;
    [| congruence |]; cbn [fs log]; by rewrite <- app_assoc.
Qed.

Lemma run_ok (w : world) (prog p : string) (B : list byte) :
  fs w !! p = Some (File B) →
  fs w !! output_path p ≠ Some Dir →
  run [prog; p] w
  = (0,
     World (<[output_path p := File (modified_data B)]> (fs w))
           (log w ++ [Exists p; OpenRead p; OpenWrite (output_path p);
                      Printed ("Fixed file written to: " +:+ output_path p);
                      Printed ("Successfully shortened symbol names in "
                             +:+ output_path p)])).
Proof.
  intros Hin Hout.
  unfold run, main.
  rewrite bool_decide_eq_false_2 by (simpl; lia). cbn [lookup list_lookup].
  unfold path_exists, bind at 1 2, emit. cbn [fs log].
  rewrite bool_decide_eq_true_2 by (rewrite Hin; eauto). cbn [negb].
  unfold bind.
  rewrite (shorten_symbol_names_ok _ p B) by assumption.
  unfold print, emit. cbn [fs log].
  rewrite <- !app_assoc. reflexivity.
Qed.

(** ** Properties of the patched buffer *)

(** C1. Whatever the input file holds, the buffer that
    [shorten_symbol_names] writes to the output path is exactly as long as
    the buffer it read. *)
Theorem written_length_preserved (w : world) (p : string) (B : list byte) :
  fs w !! p = Some (File B) →
  fs w !! output_path p ≠ Some Dir →
  length (modified_data B) = length B ∧
  ∃ w' out,
    shorten_symbol_names p w = (Ok (output_path p), w') ∧
    fs w' !! output_path p = Some (File out) ∧
    length out = length B.
Proof.
  intros Hin Hout.
  assert (length (modified_data B) = length B) as Hlen.
  { apply replace_length;
      [exact old_pattern_nonempty | exact padded_pattern_length]. }
  split; [exact Hlen|].
  eexists _, (modified_data B).
  split; [apply (shorten_symbol_names_ok w p B Hin Hout)|].
  split; [apply lookup_insert_eq | exact Hlen].
Qed.

Lemma written_length_preserved_witness :
  length (modified_data three_matches) = length three_matches ∧
  ∃ w' out,
    shorten_symbol_names "lib.so" (world_with "lib.so" three_matches)
    = (Ok (output_path "lib.so"), w') ∧
    fs w' !! output_path "lib.so" = Some (File out) ∧
    length out = length three_matches.
Proof.
  apply (written_length_preserved (world_with "lib.so" three_matches)
           "lib.so" three_matches).
  - vm_compute. reflexivity.
  - vm_compute. discriminate.
Defined.

(** C2. At every offset where the old pattern occurs in the input, the
    output holds [.bss._ZN_short] followed by as many null bytes as the old
    pattern is longer than it. *)
Theorem occurrence_padded (B : list byte) (i : nat) :
  occurs_at old_pattern B i →
  take (length old_pattern) (drop i (modified_data B))
  = String.list_byte_of_string ".bss._ZN_short"
    ++ replicate (length old_pattern
                  - length (String.list_byte_of_string ".bss._ZN_short")) x00.
Proof.
  intros Hocc.
  apply (replace_occurrence old_pattern padded_pattern old_pattern_nonempty
           old_pattern_borderless B i padded_pattern_length Hocc).
Qed.

Lemma occurrence_padded_witness :
  occurs_at old_pattern one_match 1 ∧
  take (length old_pattern) (drop 1 (modified_data one_match))
  = String.list_byte_of_string ".bss._ZN_short"
    ++ replicate (length old_pattern
                  - length (String.list_byte_of_string ".bss._ZN_short")) x00.
Proof.
  assert (occurs_at old_pattern one_match 1) as Hocc
    by (vm_compute; reflexivity).
  split; [exact Hocc | apply (occurrence_padded one_match 1 Hocc)].
Defined.

(** C3. In a buffer with two or more occurrences of the old pattern the
    padded replacement stands at every one of them, and no occurrence of
    the old pattern is left. *)
Theorem every_occurrence_replaced (B : list byte) :
  2 ≤ length (occurrences old_pattern B) →
  (∀ i, i ∈ occurrences old_pattern B →
        occurs_at padded_pattern (modified_data B) i) ∧
  occurrences old_pattern (modified_data B) = [].
Proof.
  intros _. split.
  - intros i Hi. apply elem_of_occurrences in Hi; [|exact old_pattern_nonempty].
    apply (replace_occurrence old_pattern padded_pattern old_pattern_nonempty
             old_pattern_borderless B i padded_pattern_length Hi).
  - destruct (occurrences old_pattern (modified_data B)) as [|q l] eqn:Hq;
      [reflexivity|exfalso].
    assert (q ∈ occurrences old_pattern (modified_data B)) as Hin
      by (rewrite Hq; left).
    apply elem_of_occurrences in Hin; [|exact old_pattern_nonempty].
    revert Hin.
    apply (replace_gone old_pattern padded_pattern old_pattern_nonempty
             old_pattern_borderless B q padded_pattern_length
             padded_old_no_overlap old_padded_no_overlap).
Qed.

Lemma every_occurrence_replaced_witness :
  occurrences old_pattern three_matches = [1; 154; 306] ∧
  (∀ i, i ∈ occurrences old_pattern three_matches →
        occurs_at padded_pattern (modified_data three_matches) i) ∧
  occurrences old_pattern (modified_data three_matches) = [].
Proof.
  assert (occurrences old_pattern three_matches = [1; 154; 306]) as Hocc
    by (vm_compute; reflexivity).
  split; [exact Hocc|].
  apply (every_occurrence_replaced three_matches).
  rewrite Hocc. simpl. lia.
Defined.

(** C4. A byte of the output at an offset that no occurrence of the old
    pattern covers is the byte of the input at that offset. *)
Theorem outside_unchanged (B : list byte) (k : nat) :
  (∀ i, occurs_at old_pattern B i → ¬ (i ≤ k < i + length old_pattern)) →
  modified_data B !! k = B !! k.
Proof.
  intros Hk.
  apply (replace_frame old_pattern padded_pattern old_pattern_nonempty B k
           padded_pattern_length Hk).
Qed.

Lemma outside_unchanged_witness :
  (∀ i, occurs_at old_pattern one_match i →
        ¬ (i ≤ 153 < i + length old_pattern)) ∧
  modified_data one_match !! 153 = one_match !! 153.
Proof.
  assert (∀ i, occurs_at old_pattern one_match i →
               ¬ (i ≤ 153 < i + length old_pattern)) as Hfar.
  { intros i Hi.
    apply elem_of_occurrences in Hi; [|exact old_pattern_nonempty].
    assert (occurrences old_pattern one_match = [1]) as Heq
      by (vm_compute; reflexivity).
    rewrite Heq in Hi. apply list_elem_of_singleton in Hi. subst i.
    vm_compute. lia. }
  split; [exact Hfar | apply (outside_unchanged one_match 153 Hfar)].
Defined.

(** ** The output path *)

(** The output path is not the input path with only its first [.so]
    rewritten: in a path with two of them both are. *)
Lemma output_path_not_first_only :
  output_path "my.solana/prog.so" = "my_fixed.solana/prog_fixed.so" ∧
  str_replace_first ".so" "_fixed.so" "my.solana/prog.so"
  = "my_fixed.solana/prog.so" ∧
  output_path "my.solana/prog.so"
  ≠ str_replace_first ".so" "_fixed.so" "my.solana/prog.so".
Proof.
  split; [vm_compute; reflexivity|].
  split; [vm_compute; reflexivity|].
  vm_compute. discriminate.
Qed.

Lemma so_nonempty : String.list_ascii_of_string ".so" ≠ [].
Proof. discriminate. Qed.

Lemma so_borderless : borderless (String.list_ascii_of_string ".so") = true.
Proof. vm_compute. reflexivity. Qed.

(** C5, amended. The output path has [_fixed.so] in place of every
    occurrence of [.so] of the input path, and nothing else is changed:
    splitting a path at any occurrence, the part before it and the part
    after it are rewritten in the same way, and a path in which [.so] does
    not occur is its own output path.  The two laws fix the output path of
    every path ([output_path_determined] below). *)
Theorem output_path_every_occurrence :
  (∀ a b : string,
     output_path (a +:+ ".so" +:+ b)
     = output_path a +:+ "_fixed.so" +:+ output_path b) ∧
  (∀ p : string, (∀ i, ¬ str_occurs_at ".so" p i) → output_path p = p).
Proof.
  split.
  - intros a b. unfold output_path, str_replace.
    rewrite !list_ascii_of_string_app.
    rewrite (replace_app _ _ so_nonempty so_borderless).
    rewrite !string_of_list_ascii_app.
    by rewrite String.string_of_list_ascii_of_string.
  - intros p Hno. unfold output_path, str_replace.
    rewrite (replace_absent _ _ so_nonempty) by exact Hno.
    apply String.string_of_list_ascii_of_string.
Qed.

Lemma output_path_every_occurrence_witness :
  output_path ("my" +:+ ".so" +:+ "lana/prog" +:+ ".so" +:+ "")
  = "my" +:+ "_fixed.so" +:+ "lana/prog" +:+ "_fixed.so" +:+ "".
Proof.
  destruct output_path_every_occurrence as [Hsplit Hbase].
  rewrite !Hsplit.
  rewrite !Hbase
    by (apply absent_by_occurrences; [discriminate | vm_compute; reflexivity]).
  reflexivity.
Defined.

(** C6. A path without [.so] is its own output path, and the script
    writes the patched buffer over the input file. *)
Theorem no_so_overwrites_input (w : world) (p : string) (B : list byte) :
  (∀ i, ¬ str_occurs_at ".so" p i) →
  fs w !! p = Some (File B) →
  output_path p = p ∧
  shorten_symbol_names p w
  = (Ok p,
     World (<[p := File (modified_data B)]> (fs w))
           (log w ++ [OpenRead p; OpenWrite p;
                      Printed ("Fixed file written to: " +:+ p)])).
Proof.
  intros Hno Hin.
  assert (output_path p = p) as Hp.
  { unfold output_path, str_replace.
    rewrite (replace_absent _ _ so_nonempty) by exact Hno.
    apply String.string_of_list_ascii_of_string. }
  split; [exact Hp|].
  rewrite (shorten_symbol_names_ok w p B Hin); rewrite Hp;
    [reflexivity | congruence].
Qed.

Lemma no_so_overwrites_input_witness :
  (∀ i, ¬ str_occurs_at ".so" "prog.bin" i) ∧
  output_path "prog.bin" = "prog.bin" ∧
  shorten_symbol_names "prog.bin" (world_with "prog.bin" one_match)
  = (Ok "prog.bin",
     World (<["prog.bin" := File (modified_data one_match)]>
              (fs (world_with "prog.bin" one_match)))
           (log (world_with "prog.bin" one_match)
            ++ [OpenRead "prog.bin"; OpenWrite "prog.bin";
                Printed ("Fixed file written to: " +:+ "prog.bin")])).
Proof.
  assert (∀ i, ¬ str_occurs_at ".so" "prog.bin" i) as Hno.
  { apply absent_by_occurrences; [discriminate | vm_compute; reflexivity]. }
  split; [exact Hno|].
  apply (no_so_overwrites_input (world_with "prog.bin" one_match)
           "prog.bin" one_match Hno).
  vm_compute. reflexivity.
Defined.

(** ** A buffer without the pattern *)

(** C7. When the old pattern does not occur in the input, nothing is
    raised: the script runs to its end with status 0 and the file written
    under the derived name holds the input, byte for byte. *)
Theorem absent_pattern_copies (w : world) (prog p : string) (B : list byte) :
  (∀ i, ¬ occurs_at old_pattern B i) →
  fs w !! p = Some (File B) →
  fs w !! output_path p ≠ Some Dir →
  modified_data B = B ∧
  shorten_symbol_names p w
  = (Ok (output_path p),
     World (<[output_path p := File B]> (fs w))
           (log w ++ [OpenRead p; OpenWrite (output_path p);
                      Printed ("Fixed file written to: " +:+ output_path p)])) ∧
  (run [prog; p] w).1 = 0 ∧
  fs (run [prog; p] w).2 !! output_path p = Some (File B).
Proof.
  intros Hno Hin Hout.
  assert (modified_data B = B) as HB
    by (apply (replace_absent _ _ old_pattern_nonempty); exact Hno).
  split; [exact HB|].
  rewrite (shorten_symbol_names_ok w p B Hin Hout).
  rewrite (run_ok w prog p B Hin Hout). rewrite HB. cbn [fst snd fs].
  split; [reflexivity|]. split; [reflexivity|]. apply lookup_insert_eq.
Qed.

Lemma absent_pattern_copies_witness :
  (∀ i, ¬ occurs_at old_pattern no_match i) ∧
  modified_data no_match = no_match ∧
  shorten_symbol_names "lib.so" (world_with "lib.so" no_match)
  = (Ok (output_path "lib.so"),
     World (<[output_path "lib.so" := File no_match]>
              (fs (world_with "lib.so" no_match)))
           (log (world_with "lib.so" no_match)
            ++ [OpenRead "lib.so"; OpenWrite (output_path "lib.so");
                Printed ("Fixed file written to: "
                       +:+ output_path "lib.so")])) ∧
  (run ["fix-symbols.py"; "lib.so"] (world_with "lib.so" no_match)).1 = 0 ∧
  fs (run ["fix-symbols.py"; "lib.so"] (world_with "lib.so" no_match)).2
    !! output_path "lib.so" = Some (File no_match).
Proof.
  assert (∀ i, ¬ occurs_at old_pattern no_match i) as Hno.
  { apply absent_by_occurrences; [discriminate | vm_compute; reflexivity]. }
  split; [exact Hno|].
  apply (absent_pattern_copies (world_with "lib.so" no_match)
           "fix-symbols.py" "lib.so" no_match Hno).
  - vm_compute. reflexivity.
  - vm_compute. discriminate.
Defined.

(** ** Errors reported by the [__main__] block *)

(** C8. With one argument that names no existing path, the script prints
    the error message and exits with status 1 right after the existence
    check: no file is opened and the file system is as it was. *)
Theorem missing_input_reported (w : world) (prog p : string) :
  fs w !! p = None →
  run [prog; p] w
  = (1, World (fs w)
              (log w ++ [Exists p;
                         Printed ("Error: File " +:+ p +:+ " not found")])).
Proof.
  intros Hnone.
  unfold run, main.
  rewrite bool_decide_eq_false_2 by (simpl; lia). cbn [lookup list_lookup].
  unfold path_exists, print, sys_exit, raise, emit, bind.
  cbn [fs log].
  rewrite bool_decide_eq_false_2
    by (rewrite Hnone; intros [e He]; discriminate).
  cbn [negb fs log]. by rewrite <- app_assoc.
Qed.

Lemma missing_input_reported_witness :
  fs (world_with "lib.so" one_match) !! "other.so" = None ∧
  run ["fix-symbols.py"; "other.so"] (world_with "lib.so" one_match)
  = (1, World (fs (world_with "lib.so" one_match))
              (log (world_with "lib.so" one_match)
               ++ [Exists "other.so";
                   Printed ("Error: File " +:+ "other.so" +:+ " not found")])).
Proof.
  assert (fs (world_with "lib.so" one_match) !! "other.so" = None) as Hnone
    by (vm_compute; reflexivity).
  split; [exact Hnone|].
  apply (missing_input_reported (world_with "lib.so" one_match)
           "fix-symbols.py" "other.so" Hnone).
Defined.

Lemma run_usage (w : world) (argv : list string) :
  length argv ≠ 2 →
  run argv w = (1, World (fs w) (log w ++ [Printed usage])).
Proof.
  intros Hlen. unfold run, main.
  by rewrite bool_decide_eq_true_2 by exact Hlen.
Qed.

(** C9. With no argument after the program name, or with two or more, the
    script prints the usage message and exits with status 1; it does not
    ask for, open or write any file. *)
Theorem wrong_argument_count (w : world) (prog : string) (args : list string) :
  length args = 0 ∨ 2 ≤ length args →
  run (prog :: args) w = (1, World (fs w) (log w ++ [Printed usage])).
Proof.
  intros Hargs. apply run_usage. simpl. lia.
Qed.

Lemma wrong_argument_count_witness :
  (length ["lib.so"; "extra.so"] = 0 ∨ 2 ≤ length ["lib.so"; "extra.so"]) ∧
  run ("fix-symbols.py" :: ["lib.so"; "extra.so"])
      (world_with "lib.so" one_match)
  = (1, World (fs (world_with "lib.so" one_match))
              (log (world_with "lib.so" one_match) ++ [Printed usage])).
Proof.
  assert (length ["lib.so"; "extra.so"] = 0 ∨ 2 ≤ length ["lib.so"; "extra.so"])
    as Hargs by (right; simpl; lia).
  split; [exact Hargs|].
  apply (wrong_argument_count (world_with "lib.so" one_match)
           "fix-symbols.py" ["lib.so"; "extra.so"] Hargs).
Defined.

(** ** The size of the replaced span *)

(** The old pattern is not 151 bytes long. *)
Lemma old_pattern_length_not_151 : length old_pattern ≠ 151.
Proof. vm_compute. discriminate. Qed.

(** C10, amended. The old pattern is 152 bytes long, so each replaced
    region is the 14 bytes of [.bss._ZN_short] followed by 138 null bytes,
    152 bytes in all. *)
Theorem old_pattern_length :
  length old_pattern = 152 ∧
  length new_pattern = 14 ∧
  padded_pattern
  = String.list_byte_of_string ".bss._ZN_short" ++ replicate 138 x00 ∧
  length padded_pattern = 152.
Proof. repeat split; vm_compute; reflexivity. Qed.

(** ** Further properties of [replace] *)

Section replace_growth.
Context {A : Type} `{EqDecision A}.
Variables old new : list A.
Hypothesis old_nonempty : old ≠ [].
Implicit Types (s r : list A) (i : nat).

(** A replacement that is not shorter than the pattern never shortens the
    buffer, and lengthens it as soon as the pattern occurs. *)
Lemma replace_grows s :
  length old ≤ length new →
  length s ≤ length (replace old new s) ∧
  (length old < length new → ∀ i, occurs_at old s i →
   length s < length (replace old new s)).
Proof.
  intros Hle.
  pattern s, (replace old new s). apply replace_ind; clear s.
  - assumption.
  - split; [reflexivity|]. intros _ i Hi.
    apply occurs_at_bound in Hi; [|assumption].
    assert (length old ≠ 0) by (destruct old; [congruence | discriminate]).
    simpl in Hi. lia.
  - intros s r Hocc [IH _].
    pose proof (occurs_at_bound old s 0 old_nonempty Hocc) as Hb.
    rewrite length_app. rewrite length_drop in IH.
    split; [lia|]. intros Hlt i _. lia.
  - intros c s r Hno [IH1 IH2]. simpl. split; [lia|].
    intros Hlt [|i] Hi; [contradiction|].
    apply occurs_at_cons in Hi. specialize (IH2 Hlt i Hi). lia.
Qed.
End replace_growth.

(** ** The script, case by case *)

(** The three ways in which [shorten_symbol_names] raises. *)
Lemma shorten_symbol_names_cases (w : world) (p : string) :
  shorten_symbol_names p w
  = match fs w !! p with
    | None =>
        (Raise (FileNotFoundError p), World (fs w) (log w ++ [OpenRead p]))
    | Some Dir =>
        (Raise (IsADirectoryError p), World (fs w) (log w ++ [OpenRead p]))
    | Some (File B) =>
        match fs w !! output_path p with
        | Some Dir =>
            (Raise (IsADirectoryError (output_path p)),
             World (fs w) (log w ++ [OpenRead p; OpenWrite (output_path p)]))
        | _ =>
            (Ok (output_path p),
             World (<[output_path p := File (modified_data B)]> (fs w))
                   (log w ++ [OpenRead p; OpenWrite (output_path p);
                              Printed ("Fixed file written to: "
                                       +:+ output_path p)]))
        end
    end.
Proof.
  destruct (fs w !! p) as [[B|]|] eqn:Hin.
  - destruct (fs w !! output_path p) as [[d|]|] eqn:Hout.
    + apply shorten_symbol_names_ok; [assumption | congruence].
    + unfold shorten_symbol_names, read_file, write_file, emit, bind.
      cbn [fs log]. rewrite Hin. cbn [fs log]. rewrite Hout.
      by rewrite <- app_assoc.
    + apply shorten_symbol_names_ok; [assumption | congruence].
  - unfold shorten_symbol_names, read_file, emit, bind.
    cbn [fs log]. by rewrite Hin.
  - unfold shorten_symbol_names, read_file, emit, bind.
    cbn [fs log]. by rewrite Hin.
Qed.

(** The whole run with one argument after the program name. *)
Lemma run_two_args (w : world) (prog p : string) :
  run [prog; p] w
  = match fs w !! p with
    | None =>
        (1, World (fs w)
                  (log w ++ [Exists p;
                             Printed ("Error: File " +:+ p +:+ " not found")]))
    | Some Dir => (1, World (fs w) (log w ++ [Exists p; OpenRead p]))
    | Some (File B) =>
        match fs w !! output_path p with
        | Some Dir =>
            (1, World (fs w)
                      (log w ++ [Exists p; OpenRead p;
                                 OpenWrite (output_path p)]))
        | _ =>
            (0, World (<[output_path p := File (modified_data B)]> (fs w))
                      (log w ++ [Exists p; OpenRead p;
                                 OpenWrite (output_path p);
                                 Printed ("Fixed file written to: "
                                          +:+ output_path p);
                                 Printed ("Successfully shortened symbol names in "
                                          +:+ output_path p)]))
        end
    end.
Proof.
  unfold run, main.
  rewrite bool_decide_eq_false_2 by (simpl; lia). cbn [lookup list_lookup].
  unfold path_exists, bind at 1 2, emit. cbn [fs log].
  destruct (fs w !! p) as [e|] eqn:Hin.
  - rewrite bool_decide_eq_true_2 by eauto. cbn [negb].
    unfold bind. rewrite shorten_symbol_names_cases. cbn [fs log].
    rewrite Hin.
    destruct e as [B|]; [|by rewrite <- app_assoc].
    destruct (fs w !! output_path p) as [[d|]|];
      unfold print, emit; cbn [fs log]; by rewrite <- !app_assoc.
  - rewrite bool_decide_eq_false_2 by (intros [e He]; discriminate).
    cbn [negb]. unfold print, sys_exit, raise, emit, bind. cbn [fs log].
    by rewrite <- app_assoc.
Qed.

(** ** Shared facts about [modified_data] and [output_path] *)

Lemma padded_pattern_differs : padded_pattern ≠ old_pattern.
Proof.
  intros Heq. apply (f_equal (λ l, l !! 8)) in Heq.
  vm_compute in Heq. discriminate.
Qed.

Lemma modified_data_gone (B : list byte) (q : nat) :
  ¬ occurs_at old_pattern (modified_data B) q.
Proof.
  apply (replace_gone old_pattern padded_pattern old_pattern_nonempty
           old_pattern_borderless B q padded_pattern_length
           padded_old_no_overlap old_padded_no_overlap).
Qed.

Lemma modified_data_twice (B : list byte) :
  modified_data (modified_data B) = modified_data B.
Proof.
  apply (replace_absent _ _ old_pattern_nonempty). apply modified_data_gone.
Qed.

Lemma output_path_app (a b : string) :
  output_path (a +:+ ".so" +:+ b)
  = output_path a +:+ "_fixed.so" +:+ output_path b.
Proof.
  unfold output_path, str_replace.
  rewrite !list_ascii_of_string_app.
  rewrite (replace_app _ _ so_nonempty so_borderless).
  rewrite !string_of_list_ascii_app.
  by rewrite String.string_of_list_ascii_of_string.
Qed.

Lemma output_path_absent (p : string) :
  (∀ i, ¬ str_occurs_at ".so" p i) → output_path p = p.
Proof.
  intros Hno. unfold output_path, str_replace.
  rewrite (replace_absent _ _ so_nonempty) by exact Hno.
  apply String.string_of_list_ascii_of_string.
Qed.

Lemma output_path_changes (p : string) (i : nat) :
  str_occurs_at ".so" p i → output_path p ≠ p.
Proof.
  intros Hocc Heq.
  apply (f_equal String.list_ascii_of_string) in Heq.
  unfold output_path, str_replace in Heq.
  rewrite String.list_ascii_of_string_of_list_ascii in Heq.
  apply (f_equal length) in Heq.
  destruct (replace_grows (String.list_ascii_of_string ".so")
              (String.list_ascii_of_string "_fixed.so") so_nonempty
              (String.list_ascii_of_string p)) as [_ Hlt];
    [simpl; lia|].
  specialize (Hlt ltac:(simpl; lia) i Hocc). lia.
Qed.

(** ** More about the patched buffer *)

(** X1. Patching an already patched buffer changes nothing. *)
Theorem modified_data_idempotent (B : list byte) :
  modified_data (modified_data B) = modified_data B.
Proof. apply modified_data_twice. Qed.

(** X2. Whatever the input, the old pattern occurs nowhere in the patched
    buffer: the padded replacement cannot form the symbol name again with
    the bytes around it. *)
Theorem modified_data_free_of_old_pattern (B : list byte) (q : nat) :
  ¬ occurs_at old_pattern (modified_data B) q.
Proof. apply modified_data_gone. Qed.

(** X3. The patched buffer equals the input exactly when the old pattern
    does not occur in the input. *)
Theorem modified_data_fixed_iff (B : list byte) :
  modified_data B = B ↔ ∀ i, ¬ occurs_at old_pattern B i.
Proof.
  split.
  - intros Heq i Hi.
    pose proof (replace_occurrence old_pattern padded_pattern
                  old_pattern_nonempty old_pattern_borderless B i
                  padded_pattern_length Hi) as Hpad.
    fold (modified_data B) in Hpad. rewrite Heq in Hpad.
    unfold occurs_at in Hi, Hpad. rewrite padded_pattern_length in Hpad.
    apply padded_pattern_differs. congruence.
  - intros Hno. apply (replace_absent _ _ old_pattern_nonempty). exact Hno.
Qed.

(** X4. Patching distributes over a split of the buffer at an occurrence:
    the bytes before and after it are patched on their own. *)
Theorem modified_data_split (a b : list byte) :
  modified_data (a ++ old_pattern ++ b)
  = modified_data a ++ padded_pattern ++ modified_data b.
Proof.
  apply (replace_app _ _ old_pattern_nonempty old_pattern_borderless).
Qed.

(** X5. A buffer shorter than the old pattern, the empty one included, is
    written back as it is. *)
Theorem short_buffer_unchanged (B : list byte) :
  length B < length old_pattern → modified_data B = B.
Proof.
  intros Hlt. apply (replace_absent _ _ old_pattern_nonempty).
  intros i Hi. apply occurs_at_bound in Hi; [lia | exact old_pattern_nonempty].
Qed.

Lemma short_buffer_unchanged_witness :
  length no_match < length old_pattern ∧ modified_data no_match = no_match.
Proof.
  assert (length no_match < length old_pattern) as Hlt by (vm_compute; lia).
  split; [exact Hlt | apply (short_buffer_unchanged no_match Hlt)].
Defined.

(** ** More about the output path *)

(** X6. When [.so] occurs once in the path, only that occurrence changes:
    the text before it and the text after it (a version suffix, say) are
    kept. *)
Theorem output_path_single_so (a b : string) :
  (∀ i, ¬ str_occurs_at ".so" a i) →
  (∀ i, ¬ str_occurs_at ".so" b i) →
  output_path (a +:+ ".so" +:+ b) = a +:+ "_fixed.so" +:+ b.
Proof.
  intros Ha Hb. rewrite output_path_app.
  by rewrite (output_path_absent a Ha), (output_path_absent b Hb).
Qed.

Lemma output_path_single_so_witness :
  (∀ i, ¬ str_occurs_at ".so" "libfoo" i) ∧
  (∀ i, ¬ str_occurs_at ".so" ".1" i) ∧
  output_path ("libfoo" +:+ ".so" +:+ ".1")
  = "libfoo" +:+ "_fixed.so" +:+ ".1".
Proof.
  assert (∀ i, ¬ str_occurs_at ".so" "libfoo" i) as Ha.
  { apply absent_by_occurrences; [discriminate | vm_compute; reflexivity]. }
  assert (∀ i, ¬ str_occurs_at ".so" ".1" i) as Hb.
  { apply absent_by_occurrences; [discriminate | vm_compute; reflexivity]. }
  split; [exact Ha|]. split; [exact Hb|].
  apply (output_path_single_so "libfoo" ".1" Ha Hb).
Defined.

(** X7. The output path is the input path exactly when [.so] does not
    occur in the input path. *)
Theorem output_path_fixed_iff (p : string) :
  output_path p = p ↔ ∀ i, ¬ str_occurs_at ".so" p i.
Proof.
  split.
  - intros Heq i Hi. by apply (output_path_changes p i Hi).
  - apply output_path_absent.
Qed.

(** ** More about the script *)

(** X9. Besides printing, a run does three things at most, each on a
    path it was given or has derived: it asks whether its argument exists,
    opens its argument for reading, and opens the output path of its
    argument for writing.  No other path is asked for, read or written,
    whether the run succeeds or fails. *)
Theorem run_opens_only_its_paths (w : world) (argv : list string) :
  ∃ added,
    log (run argv w).2 = log w ++ added ∧
    (∀ q, Exists q ∈ added → argv !! 1 = Some q) ∧
    (∀ q, OpenRead q ∈ added → argv !! 1 = Some q) ∧
    (∀ q, OpenWrite q ∈ added →
          ∃ p, argv !! 1 = Some p ∧ q = output_path p).
Proof.
  destruct (decide (length argv = 2)) as [Hlen|Hlen].
  - destruct argv as [|prog [|p [|x argv]]]; try discriminate.
    rewrite run_two_args.
    destruct (fs w !! p) as [[B|]|];
      [destruct (fs w !! output_path p) as [[d|]|]|..];
      (eexists; split; [reflexivity|]);
      (split; [|split]); intros q Hq;
      repeat (apply elem_of_cons in Hq as [Hq|Hq]);
      try (by apply elem_of_nil in Hq); try discriminate;
      injection Hq as ->; (reflexivity || by exists p).
  - rewrite (run_usage w argv Hlen). exists [Printed usage].
    split; [reflexivity|].
    (split; [|split]); intros q Hq;
      apply list_elem_of_singleton in Hq; discriminate.
Qed.

(** X10. A run ends with status 0 only if there is exactly one argument
    after the program name, it names a file, and the output path derived
    from it is not a directory. *)
Theorem status_zero_only_if (w : world) (argv : list string) :
  (run argv w).1 = 0 →
  ∃ prog p B, argv = [prog; p] ∧ fs w !! p = Some (File B) ∧
              fs w !! output_path p ≠ Some Dir.
Proof.
  intros Hst.
  destruct (decide (length argv = 2)) as [Hlen|Hlen];
    [|rewrite (run_usage w argv Hlen) in Hst; discriminate].
  destruct argv as [|prog [|p [|x argv]]]; try discriminate.
  rewrite run_two_args in Hst.
  destruct (fs w !! p) as [[B|]|] eqn:Hin; try discriminate.
  exists prog, p, B. split; [reflexivity|]. split; [exact Hin|].
  intros Hout. rewrite Hout in Hst. discriminate.
Qed.

Lemma status_zero_only_if_witness :
  (run ["fix-symbols.py"; "lib.so"] (world_with "lib.so" one_match)).1 = 0 ∧
  ∃ prog p B,
    ["fix-symbols.py"; "lib.so"] = [prog; p] ∧
    fs (world_with "lib.so" one_match) !! p = Some (File B) ∧
    fs (world_with "lib.so" one_match) !! output_path p ≠ Some Dir.
Proof.
  assert ((run ["fix-symbols.py"; "lib.so"]
             (world_with "lib.so" one_match)).1 = 0) as Hst
    by (vm_compute; reflexivity).
  split; [exact Hst|].
  apply (status_zero_only_if (world_with "lib.so" one_match)
           ["fix-symbols.py"; "lib.so"] Hst).
Defined.

(** X12. A successful run, in order: the existence check, the read, the
    write of the patched buffer to the output path, then the two messages
    that name the output path; the exit status is 0.  A file already at
    the output path is replaced. *)
Theorem successful_run (w : world) (prog p : string) (B : list byte) :
  fs w !! p = Some (File B) →
  fs w !! output_path p ≠ Some Dir →
  run [prog; p] w
  = (0,
     World (<[output_path p := File (modified_data B)]> (fs w))
           (log w ++ [Exists p; OpenRead p; OpenWrite (output_path p);
                      Printed ("Fixed file written to: " +:+ output_path p);
                      Printed ("Successfully shortened symbol names in "
                               +:+ output_path p)])).
Proof. apply run_ok. Qed.

Lemma successful_run_witness :
  fs (world_with "lib.so" one_match) !! "lib.so" = Some (File one_match) ∧
  fs (world_with "lib.so" one_match) !! output_path "lib.so" ≠ Some Dir ∧
  run ["fix-symbols.py"; "lib.so"] (world_with "lib.so" one_match)
  = (0,
     World (<[output_path "lib.so" := File (modified_data one_match)]>
              (fs (world_with "lib.so" one_match)))
           (log (world_with "lib.so" one_match)
            ++ [Exists "lib.so"; OpenRead "lib.so";
                OpenWrite (output_path "lib.so");
                Printed ("Fixed file written to: " +:+ output_path "lib.so");
                Printed ("Successfully shortened symbol names in "
                         +:+ output_path "lib.so")])).
Proof.
  assert (fs (world_with "lib.so" one_match) !! "lib.so"
          = Some (File one_match)) as Hin by (vm_compute; reflexivity).
  assert (fs (world_with "lib.so" one_match) !! output_path "lib.so"
          ≠ Some Dir) as Hout by (vm_compute; discriminate).
  split; [exact Hin|]. split; [exact Hout|].
  apply (successful_run (world_with "lib.so" one_match) "fix-symbols.py"
           "lib.so" one_match Hin Hout).
Defined.

(** X13. A directory passes the existence check, but reading it raises:
    the run ends with status 1 after the attempt to open it, without the
    error message of the script and without writing. *)
Theorem directory_input_fails (w : world) (prog p : string) :
  fs w !! p = Some Dir →
  run [prog; p] w = (1, World (fs w) (log w ++ [Exists p; OpenRead p])).
Proof. intros Hin. rewrite run_two_args. by rewrite Hin. Qed.

Lemma directory_input_fails_witness :
  fs (world_with_dir one_match) !! "build" = Some Dir ∧
  run ["fix-symbols.py"; "build"] (world_with_dir one_match)
  = (1, World (fs (world_with_dir one_match))
              (log (world_with_dir one_match)
               ++ [Exists "build"; OpenRead "build"])).
Proof.
  assert (fs (world_with_dir one_match) !! "build" = Some Dir) as Hin
    by (vm_compute; reflexivity).
  split; [exact Hin|].
  apply (directory_input_fails (world_with_dir one_match) "fix-symbols.py"
           "build" Hin).
Defined.

(** X14. When the output path names a directory, the input is read, the
    write raises, and the run ends with status 1: nothing is written and
    neither message is printed. *)
Theorem directory_output_fails (w : world) (prog p : string) (B : list byte) :
  fs w !! p = Some (File B) →
  fs w !! output_path p = Some Dir →
  run [prog; p] w
  = (1, World (fs w)
              (log w ++ [Exists p; OpenRead p; OpenWrite (output_path p)])).
Proof. intros Hin Hout. rewrite run_two_args. by rewrite Hin, Hout. Qed.

Lemma directory_output_fails_witness :
  fs (world_blocked one_match) !! "lib.so" = Some (File one_match) ∧
  fs (world_blocked one_match) !! output_path "lib.so" = Some Dir ∧
  run ["fix-symbols.py"; "lib.so"] (world_blocked one_match)
  = (1, World (fs (world_blocked one_match))
              (log (world_blocked one_match)
               ++ [Exists "lib.so"; OpenRead "lib.so";
                   OpenWrite (output_path "lib.so")])).
Proof.
  assert (fs (world_blocked one_match) !! "lib.so" = Some (File one_match))
    as Hin by (vm_compute; reflexivity).
  assert (fs (world_blocked one_match) !! output_path "lib.so" = Some Dir)
    as Hout by (vm_compute; reflexivity).
  split; [exact Hin|]. split; [exact Hout|].
  apply (directory_output_fails (world_blocked one_match) "fix-symbols.py"
           "lib.so" one_match Hin Hout).
Defined.

(** X15. Called on a path that names nothing, [shorten_symbol_names]
    itself raises [FileNotFoundError] at the read; it writes and prints
    nothing.  The existence check is in the [__main__] block only. *)
Theorem shorten_symbol_names_missing (w : world) (p : string) :
  fs w !! p = None →
  shorten_symbol_names p w
  = (Raise (FileNotFoundError p), World (fs w) (log w ++ [OpenRead p])).
Proof. intros Hin. rewrite shorten_symbol_names_cases. by rewrite Hin. Qed.

Lemma shorten_symbol_names_missing_witness :
  fs (world_with "lib.so" one_match) !! "other.so" = None ∧
  shorten_symbol_names "other.so" (world_with "lib.so" one_match)
  = (Raise (FileNotFoundError "other.so"),
     World (fs (world_with "lib.so" one_match))
           (log (world_with "lib.so" one_match) ++ [OpenRead "other.so"])).
Proof.
  assert (fs (world_with "lib.so" one_match) !! "other.so" = None) as Hin
    by (vm_compute; reflexivity).
  split; [exact Hin|].
  apply (shorten_symbol_names_missing (world_with "lib.so" one_match)
           "other.so" Hin).
Defined.


(** ** The output path of an output path *)

Lemma occurs_at_split {A} `{EqDecision A} (old s : list A) (i : nat) :
  occurs_at old s i → s = take i s ++ old ++ drop (i + length old) s.
Proof.
  unfold occurs_at. intros Hocc.
  transitivity (take i s ++ drop i s); [by rewrite take_drop|]. f_equal.
  transitivity (take (length old) (drop i s)
                ++ drop (length old) (drop i s)); [by rewrite take_drop|].
  by rewrite Hocc, drop_drop.
Qed.

(** A path in which [.so] occurs splits at that occurrence into two
    shorter paths. *)
Lemma path_split_at (p : string) (i : nat) :
  str_occurs_at ".so" p i →
  ∃ a b, p = a +:+ ".so" +:+ b ∧
         length (String.list_ascii_of_string a)
         < length (String.list_ascii_of_string p) ∧
         length (String.list_ascii_of_string b)
         < length (String.list_ascii_of_string p).
Proof.
  intros Hocc.
  pose proof (occurs_at_bound _ _ i so_nonempty Hocc) as Hb.
  pose proof (occurs_at_split _ _ i Hocc) as Hsplit.
  apply (f_equal String.string_of_list_ascii) in Hsplit.
  rewrite String.string_of_list_ascii_of_string in Hsplit.
  rewrite !string_of_list_ascii_app in Hsplit.
  rewrite String.string_of_list_ascii_of_string in Hsplit.
  eexists _, _. split; [exact Hsplit|].
  rewrite !String.list_ascii_of_string_of_list_ascii.
  rewrite length_take, length_drop. simpl in Hb |- *. lia.
Qed.

(** The split law and the law for paths without [.so] leave no choice:
    a function on paths that obeys both is [output_path]. *)
Lemma output_path_determined (f : string → string) :
  (∀ a b, f (a +:+ ".so" +:+ b) = f a +:+ "_fixed.so" +:+ f b) →
  (∀ p, (∀ i, ¬ str_occurs_at ".so" p i) → f p = p) →
  ∀ p, f p = output_path p.
Proof.
  intros Hsplit Hbase p.
  remember (length (String.list_ascii_of_string p)) as m eqn:Hm.
  revert p Hm. induction m as [m IH] using lt_wf_ind. intros p ->.
  destruct (occurrences (String.list_ascii_of_string ".so")
              (String.list_ascii_of_string p)) as [|i l] eqn:Hocc.
  - pose proof (absent_by_occurrences _ _ so_nonempty Hocc) as Hno.
    by rewrite (Hbase p Hno), (output_path_absent p Hno).
  - assert (str_occurs_at ".so" p i) as Hi.
    { apply elem_of_occurrences; [exact so_nonempty|]. rewrite Hocc. left. }
    destruct (path_split_at p i Hi) as (a & b & Hp & Ha & Hb).
    rewrite Hp at 1 2. rewrite Hsplit, output_path_app.
    by rewrite (IH _ Ha a eq_refl), (IH _ Hb b eq_refl).
Qed.


